(** * Unicode sanitization (llm/sanitize.py): model and verification

    The Python module removes invisible Unicode code points from text and
    walks nested containers doing so.  Python values are embedded as an
    inductive type, strings as lists of code points, the removal sets as
    finite sets of integers, and dictionaries as insertion-ordered
    association lists whose keys are compared with Python's [==]. *)

From Stdlib Require Import ZArith String Ascii.
From stdpp Require Import base decidable option list list_numbers gmap strings.

Local Open Scope Z_scope.

(** ** Data model *)

(** A Python [str] is a sequence of code points; [ord(c)] is the element
    itself. *)
Abbreviation pystr := (list Z).

(** An ASCII literal of the source as a [pystr]. *)
Definition lit (s : string) : pystr :=
  (λ a : ascii, Z.of_N (N_of_ascii a)) <$> list_ascii_of_string s.

Module Sets.

(** [range(0xE0000, 0xE007F + 1)] *)
Definition _TAG_RANGE : list Z := seqZ 0xE0000 (0xE007F + 1 - 0xE0000).

Definition _ALWAYS_REMOVE : gset Z := list_to_set _TAG_RANGE.

Definition _ZERO_WIDTH : gset Z :=
  {[ 0x200B; 0x200C; 0x200D; 0xFEFF ]}.

Definition _BIDI : gset Z :=
  {[ 0x202A; 0x202B; 0x202C; 0x202D; 0x202E;
     0x2066; 0x2067; 0x2068; 0x2069 ]}.

Definition _STRICT_REMOVE : gset Z := _ALWAYS_REMOVE ∪ _ZERO_WIDTH ∪ _BIDI.

End Sets.
Export Sets.

(** [str.lower()], restricted to what the comparison with the ASCII
    literals ["1"], ["true"], ["yes"] can observe: the letters [A]..[Z]
    are mapped to [a]..[z]; every other code point is left as it is (no
    code point outside ASCII lowers to a letter of those literals). *)
Definition lower_cp (c : Z) : Z :=
  if (0x41 <=? c) && (c <=? 0x5A) then c + 0x20 else c.

Definition lower (s : pystr) : pystr := lower_cp <$> s.

(** Python values: the closed set of shapes the two functions
    distinguish, plus the scalar leaves they pass through.  [PyObj h a]
    is an object of any other class, at address [a], compared by identity;
    [h] tells whether [hash()] accepts it. *)
#[local] Unset Elimination Schemes.
Inductive pyval : Type :=
  | PyNone
  | PyBool (b : bool)
  | PyInt (n : Z)
  | PyStr (s : pystr)
  | PyDict (items : list (pyval * pyval))
  | PyList (items : list pyval)
  | PyTuple (items : list pyval)
  | PyObj (hashable : bool) (addr : N).
#[local] Set Elimination Schemes.

(** Induction over values: the entries of a dict and the elements of a
    list or tuple are smaller values. *)
Lemma pyval_ind (P : pyval → Prop)
    (HNone : P PyNone)
    (HBool : ∀ b, P (PyBool b))
    (HInt : ∀ n, P (PyInt n))
    (HStr : ∀ s, P (PyStr s))
    (HDict : ∀ items,
       Forall (λ kv, P kv.1 ∧ P kv.2) items → P (PyDict items))
    (HList : ∀ items, Forall P items → P (PyList items))
    (HTuple : ∀ items, Forall P items → P (PyTuple items))
    (HObj : ∀ h a, P (PyObj h a)) :
  ∀ v, P v.
Proof.
  fix IH 1. intros [ | b | n | s | items | items | items | h a].
  - exact HNone.
  - apply HBool.
  - apply HInt.
  - apply HStr.
  - apply HDict.
    induction items as [|[k v] items IHitems]; constructor.
    + split; apply IH.
    + exact IHitems.
  - apply HList.
    induction items as [|x items IHitems]; constructor;
      [apply IH|exact IHitems].
  - apply HTuple.
    induction items as [|x items IHitems]; constructor;
      [apply IH|exact IHitems].
  - apply HObj.
Qed.

(** Exceptions the modelled code can raise: building a dict with an
    unhashable key. *)
Inductive exn : Type := TypeError.

Inductive result (A : Type) : Type :=
  | Ok (a : A)
  | Raise (e : exn).
Arguments Ok {A} a.
Arguments Raise {A} e.

#[global] Instance result_ret : MRet result := λ A a, Ok a.

#[global] Instance result_bind : MBind result := λ A B k m,
  match m with
  | Ok a => k a
  | Raise e => Raise e
  end.

#[global] Instance result_fmap : FMap result := λ A B f m,
  match m with
  | Ok a => Ok (f a)
  | Raise e => Raise e
  end.

(** [[f(x) for x in xs]] and [tuple(f(x) for x in xs)]: the elements
    are computed left to right, and the first exception ends the loop. *)
Definition collect {A B} (f : A → result B) : list A → result (list B) :=
  fix go (xs : list A) : result (list B) :=
    match xs with
    | [] => Ok []
    | x :: xs' => y ← f x; ys ← go xs'; Ok (y :: ys)
    end.

(** A comprehension that builds a container [acc] by one step per
    element, left to right. *)
Definition comprehend {A S} (step : S → A → result S)
    : list A → S → result S :=
  fix go (xs : list A) (acc : S) : result S :=
    match xs with
    | [] => Ok acc
    | x :: xs' => acc' ← step acc x; go xs' acc'
    end.

(** Two sequences have the same length and pairwise [eq] elements. *)
Definition all2 {A} (eq : A → A → bool) : list A → list A → bool :=
  fix go (xs ys : list A) : bool :=
    match xs, ys with
    | [], [] => true
    | x :: xs', y :: ys' => eq x y && go xs' ys'
    | _, _ => false
    end.

Module Dict.

(** [hash(v)] succeeds. *)
Fixpoint py_hashable (v : pyval) : bool :=
  match v with
  | PyNone | PyBool _ | PyInt _ | PyStr _ => true
  | PyDict _ | PyList _ => false
  | PyTuple items => forallb py_hashable items
  | PyObj h _ => h
  end.

(** [a == b] as a dict compares keys.  [bool] is a subclass of [int], so
    [True == 1]; tuples compare element by element.  Lists and dicts are
    never compared: [hash()] raises first. *)
Fixpoint key_eq (a b : pyval) : bool :=
  match a, b with
  | PyNone, PyNone => true
  | PyBool x, PyBool y => Z.b2z x =? Z.b2z y
  | PyBool x, PyInt n => Z.b2z x =? n
  | PyInt m, PyBool y => m =? Z.b2z y
  | PyInt m, PyInt n => m =? n
  | PyStr s, PyStr t => bool_decide (s = t)
  | PyTuple xs, PyTuple ys => all2 key_eq xs ys
  | PyObj h a, PyObj h' a' => bool_decide (h = h') && (a =? a')%N
  | _, _ => false
  end.

(** The entries of a dict, in insertion order. *)
Abbreviation entries := (list (pyval * pyval)).

(** [d[k] = v] on the entries: an equal key keeps its place and its
    stored key object and takes the new value; a new key goes last. *)
Fixpoint store (d : entries) (k v : pyval) : entries :=
  match d with
  | [] => [(k, v)]
  | (k0, v0) :: d' =>
      if key_eq k0 k then (k0, v) :: d' else (k0, v0) :: store d' k v
  end.

Definition setitem (d : entries) (k v : pyval) : result entries :=
  if py_hashable k then Ok (store d k v) else Raise TypeError.

(** The writes [d[k] = v] for the pairs of [kvs], in order. *)
Definition update (d kvs : entries) : entries :=
  foldl (λ d kv, store d kv.1 kv.2) d kvs.


End Dict.

(** ** The module llm/sanitize.py *)

Section Sanitize.

(** [os.environ] when the module is loaded. *)
Variable environ : gmap string pystr.

Definition _STRICT_MODE_ENV : bool :=
  bool_decide
    (lower (default (lit "") (environ !! "LLM_SANITIZE_STRICT"%string))
       ∈ [lit "1"; lit "true"; lit "yes"]).

Definition sanitize_unicode (text : pyval) (strict : bool) : pyval :=
  match text with
  | PyNone => PyNone
  | PyStr s =>
      if bool_decide (s = []) then text
      else
        let strict := if _STRICT_MODE_ENV then true else strict in
        let chars_to_remove :=
          if strict then _STRICT_REMOVE else _ALWAYS_REMOVE in
        PyStr (filter (λ c, c ∉ chars_to_remove) s)
  | _ => text
  end.

(** The one-argument call [sanitize_unicode(obj)] takes the default
    [strict=False]. *)
Fixpoint sanitize_dict (obj : pyval) : result pyval :=
  match obj with
  | PyStr _ => Ok (sanitize_unicode obj false)
  | PyDict items =>
      PyDict <$>
        comprehend
          (λ acc '(k, v),
             k' ← sanitize_dict k;
             v' ← sanitize_dict v;
             Dict.setitem acc k' v')
          items []
  | PyList items => PyList <$> collect sanitize_dict items
  | PyTuple items => PyTuple <$> collect sanitize_dict items
  | _ => Ok obj
  end.

(** The set [chars_to_remove] a call with argument [strict] works with. *)
Definition chars_to_remove (strict : bool) : gset Z :=
  if (if _STRICT_MODE_ENV then true else strict)
  then _STRICT_REMOVE else _ALWAYS_REMOVE.

(** One round of the dict comprehension of [sanitize_dict]. *)
Definition dict_step (acc : Dict.entries) (kv : pyval * pyval)
    : result Dict.entries :=
  let '(k, v) := kv in
  k' ← sanitize_dict k;
  v' ← sanitize_dict v;
  Dict.setitem acc k' v'.

End Sanitize.

(** ** Python values the functions can be given *)

(** Every key of every dict inside [v] is hashable: Python builds no
    other dict. *)
Fixpoint well_formed (v : pyval) : bool :=
  match v with
  | PyDict items =>
      forallb
        (λ kv, Dict.py_hashable kv.1 && well_formed kv.1 && well_formed kv.2)
        items
  | PyList items | PyTuple items => forallb well_formed items
  | _ => true
  end.

(** [v] is neither a string nor a dict, a list or a tuple. *)
Definition other_type (v : pyval) : Prop :=
  match v with
  | PyStr _ | PyDict _ | PyList _ | PyTuple _ => False
  | _ => True
  end.

(** No key of [d] equals a key stored after it. *)
Inductive distinct_keys : Dict.entries → Prop :=
  | distinct_nil : distinct_keys []
  | distinct_cons k v d :
      Forall (λ kv, Dict.key_eq k kv.1 = false) d →
      distinct_keys d →
      distinct_keys ((k, v) :: d).


(** [distinct_keys], computed. *)
Fixpoint distinct_keysb (d : Dict.entries) : bool :=
  match d with
  | [] => true
  | (k, _) :: d' =>
      forallb (λ kv, negb (Dict.key_eq k kv.1)) d' && distinct_keysb d'
  end.

(** Every dict inside [v] is one Python can hold: its keys are hashable
    and pairwise different. *)
Fixpoint valid_dicts (v : pyval) : bool :=
  match v with
  | PyDict items =>
      distinct_keysb items
      && forallb
           (λ kv, Dict.py_hashable kv.1 && valid_dicts kv.1
                  && valid_dicts kv.2)
           items
  | PyList items | PyTuple items => forallb valid_dicts items
  | _ => true
  end.

(** Every string inside [v] satisfies [ok]: the string itself, the keys
    and values of dicts, the elements of lists and tuples, at any depth. *)
Fixpoint all_strings (ok : pystr → bool) (v : pyval) : bool :=
  match v with
  | PyStr s => ok s
  | PyDict items =>
      forallb (λ kv, all_strings ok kv.1 && all_strings ok kv.2) items
  | PyList items | PyTuple items => forallb (all_strings ok) items
  | _ => true
  end.

(** ** The removal sets as the specification words them *)

Module Spec.

(** The Unicode Tag block, U+E0000 through U+E007F inclusive. *)
Definition AlwaysRemove (c : Z) : bool :=
  (0xE0000 <=? c) && (c <=? 0xE007F).

(** U+200B, U+200C, U+200D, U+FEFF, U+202A..U+202E, U+2066..U+2069. *)
Definition ConditionallyRemove (c : Z) : bool :=
  (c =? 0x200B) || (c =? 0x200C) || (c =? 0x200D) || (c =? 0xFEFF)
  || ((0x202A <=? c) && (c <=? 0x202E))
  || ((0x2066 <=? c) && (c <=? 0x2069)).

Definition StrictRemoveSet (c : Z) : bool :=
  AlwaysRemove c || ConditionallyRemove c.

(** The active removal set under the effective strict flag [m]. *)
Definition active_removal (m : bool) (c : Z) : bool :=
  if m then StrictRemoveSet c else AlwaysRemove c.

(** Two strings are equal up to the case of their ASCII letters. *)
Definition same_ignoring_case (a b : pystr) : Prop :=
  Forall2 (λ x y, lower_cp x = lower_cp y) a b.

(** The override is set to ["1"], ["true"] or ["yes"], in any case. *)
Definition truthy (value : option pystr) : Prop :=
  ∃ v, value = Some v
       ∧ (same_ignoring_case v (lit "1")
          ∨ same_ignoring_case v (lit "true")
          ∨ same_ignoring_case v (lit "yes")).

(** Recursive sanitization as the specification words it (section 4.2),
    under the environment-resolved mode [m]: a text is filtered by the
    active removal set; the keys and the values of a mapping are
    sanitized and written in order, the last write to a key winning; the
    elements of a sequence or of a tuple are sanitized in place; any
    other value is returned as it is. *)
Fixpoint sanitized (m : bool) (v : pyval) : pyval :=
  match v with
  | PyStr s => PyStr (filter (λ c, active_removal m c = false) s)
  | PyDict items =>
      PyDict
        (Dict.update []
           ((λ kv, (sanitized m kv.1, sanitized m kv.2)) <$> items))
  | PyList items => PyList (sanitized m <$> items)
  | PyTuple items => PyTuple (sanitized m <$> items)
  | _ => v
  end.

End Spec.

(** ** Membership in the sets of the module *)

Lemma elem_of_ALWAYS_REMOVE (c : Z) :
  c ∈ _ALWAYS_REMOVE ↔ 0xE0000 ≤ c ≤ 0xE007F.
Proof.
  unfold _ALWAYS_REMOVE, _TAG_RANGE.
  rewrite elem_of_list_to_set, elem_of_seqZ. lia.
Qed.

Lemma elem_of_STRICT_REMOVE (c : Z) :
  c ∈ _STRICT_REMOVE ↔
    0xE0000 ≤ c ≤ 0xE007F
    ∨ c = 0x200B ∨ c = 0x200C ∨ c = 0x200D ∨ c = 0xFEFF
    ∨ 0x202A ≤ c ≤ 0x202E ∨ 0x2066 ≤ c ≤ 0x2069.
Proof.
  unfold _STRICT_REMOVE, _ZERO_WIDTH, _BIDI.
  rewrite !elem_of_union, elem_of_ALWAYS_REMOVE, !elem_of_singleton. lia.
Qed.

Lemma AlwaysRemove_spec (c : Z) :
  Spec.AlwaysRemove c = true ↔ c ∈ _ALWAYS_REMOVE.
Proof. rewrite elem_of_ALWAYS_REMOVE. unfold Spec.AlwaysRemove. lia. Qed.

Lemma StrictRemoveSet_spec (c : Z) :
  Spec.StrictRemoveSet c = true ↔ c ∈ _STRICT_REMOVE.
Proof.
  rewrite elem_of_STRICT_REMOVE.
  unfold Spec.StrictRemoveSet, Spec.AlwaysRemove, Spec.ConditionallyRemove.
  lia.
Qed.

Lemma elem_of_STRICT_split (c : Z) :
  c ∈ _STRICT_REMOVE ↔
    c ∈ _ALWAYS_REMOVE ∨ Spec.ConditionallyRemove c = true.
Proof.
  rewrite elem_of_STRICT_REMOVE, elem_of_ALWAYS_REMOVE.
  unfold Spec.ConditionallyRemove. lia.
Qed.


(** ** Exceptions and comprehensions *)

Lemma bind_Ok {A B} (m : result A) (k : A → result B) (b : B) :
  m ≫= k = Ok b ↔ ∃ a, m = Ok a ∧ k a = Ok b.
Proof.
  destruct m as [a|e]; simpl; split.
  - eauto.
  - by intros (a' & [= <-] & ?).
  - done.
  - by intros (? & ? & ?).
Qed.

Lemma fmap_Ok {A B} (f : A → B) (m : result A) (b : B) :
  f <$> m = Ok b ↔ ∃ a, m = Ok a ∧ b = f a.
Proof.
  destruct m as [a|e]; simpl; split.
  - intros [= <-]. eauto.
  - by intros (a' & [= <-] & ->).
  - done.
  - by intros (? & ? & ?).
Qed.

Lemma collect_Ok {A B} (f : A → result B) (xs : list A) (ys : list B) :
  collect f xs = Ok ys ↔ Forall2 (λ x y, f x = Ok y) xs ys.
Proof.
  revert ys. induction xs as [|x xs IH]; intros ys; simpl.
  - split; [by intros [= <-]|by intros ->%Forall2_nil_inv_l].
  - rewrite bind_Ok. split.
    + intros (y & Hy & (ys' & Hys & [= <-])%bind_Ok).
      constructor; [done|by apply IH].
    + intros (y & ys' & Hy & Hys & ->)%Forall2_cons_inv_l.
      exists y. split; [done|]. apply bind_Ok. exists ys'.
      split; [by apply IH|done].
Qed.

Lemma collect_total {A B} (f : A → result B) (xs : list A) :
  Forall (λ x, ∃ y, f x = Ok y) xs → ∃ ys, collect f xs = Ok ys.
Proof.
  induction 1 as [|x xs [y Hy] _ [ys Hys]]; simpl; [by eexists|].
  exists (y :: ys). by rewrite Hy, Hys.
Qed.

Lemma forallb_Forall {A} (f : A → bool) (xs : list A) :
  forallb f xs = true ↔ Forall (λ x, f x = true) xs.
Proof.
  induction xs as [|x xs IH]; simpl.
  - split; [constructor|done].
  - by rewrite andb_true_iff, Forall_cons, IH.
Qed.

(** ** Keys and entries of a dict *)

Section Keys.

Import Dict.













Lemma store_Forall (PK PV : pyval → Prop) (d : entries) (k v : pyval) :
  Forall (λ kv, PK kv.1 ∧ PV kv.2) d → PK k → PV v →
  Forall (λ kv, PK kv.1 ∧ PV kv.2) (store d k v).
Proof.
  intros Hd Hk Hv. induction Hd as [|[k0 v0] d [? ?] Hd IH]; simpl.
  - by repeat constructor.
  - simpl in *. destruct (key_eq k0 k); constructor; simpl; auto.
Qed.

Lemma store_keys (PK : pyval → Prop) (d : entries) (k v : pyval) :
  Forall (λ kv, PK kv.1) d → PK k → Forall (λ kv, PK kv.1) (store d k v).
Proof.
  intros Hd Hk. induction Hd as [|[k0 v0] d ? Hd IH]; simpl.
  - by repeat constructor.
  - simpl in *. destruct (key_eq k0 k); constructor; simpl; auto.
Qed.

Lemma store_fresh (d : entries) (k v : pyval) :
  Forall (λ kv, key_eq kv.1 k = false) d → store d k v = d ++ [(k, v)].
Proof.
  induction 1 as [|[k0 v0] d Hk0 _ IH]; simpl; [done|].
  simpl in Hk0. by rewrite Hk0, IH.
Qed.

Lemma store_distinct (d : entries) (k v : pyval) :
  distinct_keys d → distinct_keys (store d k v).
Proof.
  induction 1 as [|k0 v0 d Hk0 Hd IH]; simpl.
  - by repeat constructor.
  - destruct (key_eq k0 k) eqn:H0; constructor; try done.
    by apply (store_keys (λ k', key_eq k0 k' = false)).
Qed.

Lemma update_Forall (PK PV : pyval → Prop) (d kvs : entries) :
  Forall (λ kv, PK kv.1 ∧ PV kv.2) d →
  Forall (λ kv, PK kv.1 ∧ PV kv.2) kvs →
  Forall (λ kv, PK kv.1 ∧ PV kv.2) (update d kvs).
Proof.
  intros Hd Hkvs. revert d Hd.
  induction Hkvs as [|[k v] kvs [? ?] _ IH]; intros d Hd; simpl; [done|].
  apply IH. by apply store_Forall.
Qed.

Lemma update_distinct (d kvs : entries) :
  distinct_keys d → distinct_keys (update d kvs).
Proof.
  revert d. induction kvs as [|[k v] kvs IH]; intros d Hd; simpl; [done|].
  apply IH. by apply store_distinct.
Qed.

Lemma distinct_keysb_spec (d : entries) :
  distinct_keysb d = true ↔ distinct_keys d.
Proof.
  induction d as [|[k v] d IH]; simpl.
  - split; [constructor|done].
  - rewrite andb_true_iff, forallb_Forall, IH. split.
    + intros [Hk Hd]. constructor; [|done].
      eapply Forall_impl; [exact Hk|]. intros kv. apply negb_true_iff.
    + inversion 1 as [|? ? ? Hk Hd]; subst. split; [|done].
      eapply Forall_impl; [exact Hk|]. intros kv. apply negb_true_iff.
Qed.

Lemma length_store (d : entries) (k v : pyval) :
  (length (store d k v) ≤ S (length d))%nat.
Proof.
  induction d as [|[k0 v0] d IH]; simpl; [lia|].
  destruct (key_eq k0 k); simpl; lia.
Qed.

Lemma length_update (d kvs : entries) :
  (length (update d kvs) ≤ length d + length kvs)%nat.
Proof.
  revert d. induction kvs as [|[k v] kvs IH]; intros d; simpl; [lia|].
  unfold update in IH. etrans; [apply IH|].
  pose proof (length_store d k v). simpl. lia.
Qed.

Lemma distinct_keys_before (d1 d2 : entries) (k v : pyval) :
  distinct_keys (d1 ++ (k, v) :: d2) →
  Forall (λ kv, key_eq kv.1 k = false) d1.
Proof.
  induction d1 as [|[k0 v0] d1 IH]; simpl; [done|].
  inversion 1 as [|? ? ? Hk0 Hd]; subst. constructor; [|by apply IH].
  apply Forall_app in Hk0 as [_ Hk0]. by apply Forall_cons in Hk0 as [? _].
Qed.

Lemma update_fresh (d kvs : entries) :
  distinct_keys (d ++ kvs) → update d kvs = d ++ kvs.
Proof.
  revert d. induction kvs as [|[k v] kvs IH]; intros d Hd; simpl.
  - by rewrite app_nil_r.
  - assert (d ++ (k, v) :: kvs = (d ++ [(k, v)]) ++ kvs) as Hmid
      by (by rewrite <- app_assoc).
    rewrite store_fresh by (by eapply distinct_keys_before).
    rewrite Hmid in Hd |- *. by apply IH.
Qed.

End Keys.

(** ** The environment override *)

Lemma lower_same_ignoring_case (v w : pystr) :
  lower v = lower w ↔ Spec.same_ignoring_case v w.
Proof.
  unfold Spec.same_ignoring_case, lower. revert w.
  induction v as [|x v IH]; intros [|y w]; simpl.
  - split; [constructor|done].
  - split; [done|inversion 1].
  - split; [done|inversion 1].
  - rewrite Forall2_cons, <- IH. split; [intros [= ? ?]|intros [? ?]]; auto.
    by f_equal.
Qed.

Lemma STRICT_MODE_ENV_truthy (environ : gmap string pystr) :
  _STRICT_MODE_ENV environ = true
  ↔ Spec.truthy (environ !! "LLM_SANITIZE_STRICT"%string).
Proof.
  unfold _STRICT_MODE_ENV, Spec.truthy.
  rewrite bool_decide_eq_true, !elem_of_cons, elem_of_nil.
  change (lit "1") with (lower (lit "1")).
  change (lit "true") with (lower (lit "true")).
  change (lit "yes") with (lower (lit "yes")).
  rewrite !lower_same_ignoring_case.
  destruct (environ !! "LLM_SANITIZE_STRICT"%string) as [v|]; simpl.
  - split.
    + intros H. exists v. intuition.
    + intros (v' & [= <-] & H). intuition.
  - split.
    + intros [H|[H|[H|[]]]]; inversion H.
    + intros (v' & [=] & _).
Qed.

(** ** Filtering a list *)

Lemma filter_self_iff {A} (P : A → Prop) `{!∀ x, Decision (P x)}
    (l : list A) :
  filter P l = l ↔ Forall P l.
Proof.
  induction l as [|x l IH]; [by split|].
  rewrite filter_cons, Forall_cons. destruct (decide (P x)) as [Hx|Hx].
  - rewrite <- IH. split; [intros [= ?]|intros [_ ?]]; [done|by f_equal].
  - split; [|tauto]. intros Heq.
    pose proof (length_filter P l) as Hlen. rewrite Heq in Hlen.
    simpl in Hlen. lia.
Qed.

Lemma filter_agree_iff {A} (P Q : A → Prop)
    `{!∀ x, Decision (P x), !∀ x, Decision (Q x)} (l : list A) :
  filter P l = filter Q l ↔ Forall (λ x, P x ↔ Q x) l.
Proof.
  induction l as [|x l IH]; [by split|].
  rewrite !filter_cons, Forall_cons, <- IH.
  destruct (decide (P x)) as [HP|HP], (decide (Q x)) as [HQ|HQ].
  - split; [intros [= ?]|intros [_ ?]]; [done|by f_equal].
  - split; [|tauto]. intros Heq.
    assert (x ∈ filter Q l) as Hx by (rewrite <- Heq; left).
    apply list_elem_of_filter in Hx as [? _]. done.
  - split; [|tauto]. intros Heq.
    assert (x ∈ filter P l) as Hx by (rewrite Heq; left).
    apply list_elem_of_filter in Hx as [? _]. done.
  - tauto.
Qed.

Lemma filter_length_split {A} (P : A → Prop) `{!∀ x, Decision (P x)}
    (l : list A) :
  (length (filter P l) + length (filter (λ x, ¬ P x) l) = length l)%nat.
Proof.
  induction l as [|x l IH]; [done|].
  rewrite !filter_cons.
  destruct (decide (P x)), (decide (¬ P x)); simpl; try tauto; lia.
Qed.

(** ** The Sanitizing Filter *)

Section Filter.

Variable environ : gmap string pystr.

#[local] Abbreviation STRICT_ENV := (_STRICT_MODE_ENV environ).
#[local] Abbreviation sanitize := (sanitize_unicode environ).
#[local] Abbreviation removed := (chars_to_remove environ).

Lemma sanitize_str (s : pystr) (strict : bool) :
  sanitize (PyStr s) strict = PyStr (filter (λ c, c ∉ removed strict) s).
Proof.
  unfold sanitize_unicode, chars_to_remove.
  case_bool_decide as Hs; [by subst s|done].
Qed.

Lemma removed_spec (strict : bool) (c : Z) :
  c ∉ removed strict
  ↔ Spec.active_removal (STRICT_ENV || strict) c = false.
Proof.
  unfold chars_to_remove, Spec.active_removal.
  destruct STRICT_ENV, strict; simpl;
    rewrite <- ?StrictRemoveSet_spec, <- ?AlwaysRemove_spec;
    apply not_true_iff_false.
Qed.

Lemma removed_tag_block (strict : bool) (c : Z) :
  0xE0000 ≤ c ≤ 0xE007F → c ∈ removed strict.
Proof.
  intros Hc. unfold chars_to_remove.
  destruct (if STRICT_ENV then true else strict).
  - apply elem_of_STRICT_REMOVE. auto.
  - by apply elem_of_ALWAYS_REMOVE.
Qed.

Lemma removed_within_strict (strict : bool) (c : Z) :
  c ∈ removed strict → c ∈ _STRICT_REMOVE.
Proof.
  unfold chars_to_remove.
  destruct (if STRICT_ENV then true else strict); [done|].
  rewrite elem_of_STRICT_split; auto.
Qed.

Lemma removed_env_unset (strict : bool) :
  STRICT_ENV = false →
  removed strict = if strict then _STRICT_REMOVE else _ALWAYS_REMOVE.
Proof. intros Henv. unfold chars_to_remove. by rewrite Henv. Qed.

Lemma removed_env_set (strict : bool) :
  STRICT_ENV = true → removed strict = _STRICT_REMOVE.
Proof. intros Henv. unfold chars_to_remove. by rewrite Henv. Qed.

(** C1: on a string [t], [sanitize_unicode(t, strict)] is exactly [t]
    without the code points of the active removal set, the Tag block when
    the effective flag [m] is false and the strict set when it is true;
    what is kept stays in its order and multiplicity, so the result is a
    subsequence of [t] and nothing is rewritten. *)
Theorem sanitize_unicode_is_filter (t : pystr) (strict : bool) :
  let m := _STRICT_MODE_ENV environ || strict in
  let kept := filter (λ c, Spec.active_removal m c = false) t in
  sanitize_unicode environ (PyStr t) strict = PyStr kept
  ∧ kept `sublist_of` t.
Proof.
  intros m kept. split; [|apply sublist_filter].
  rewrite sanitize_str. f_equal.
  apply list_filter_iff, removed_spec.
Qed.

(** C3: whatever the string and the mode, no U+E0000 and no U+E007F is
    left in the result, and every U+DFFFF and every U+E0080 of the input
    is still there. *)
Theorem tag_range_boundaries (t : pystr) (strict : bool) :
  ∃ t', sanitize_unicode environ (PyStr t) strict = PyStr t'
        ∧ (0xE0000 ∉ t') ∧ (0xE007F ∉ t')
        ∧ filter (λ c, c = 0xDFFFF) t' = filter (λ c, c = 0xDFFFF) t
        ∧ filter (λ c, c = 0xE0080) t' = filter (λ c, c = 0xE0080) t.
Proof.
  eexists. split; [apply sanitize_str|].
  rewrite !list_elem_of_filter.
  repeat split.
  - intros [Hkeep _]. apply Hkeep, removed_tag_block. lia.
  - intros [Hkeep _]. apply Hkeep, removed_tag_block. lia.
  - apply list_filter_filter_l. intros c -> Hin.
    apply removed_within_strict, elem_of_STRICT_REMOVE in Hin. lia.
  - apply list_filter_filter_l. intros c -> Hin.
    apply removed_within_strict, elem_of_STRICT_REMOVE in Hin. lia.
Qed.

(** C4: with the override unset, filtering the non-strict result strictly
    gives the strict result, and the strict result is the non-strict one
    without its ConditionallyRemove code points. *)
Theorem strict_after_default (t : pystr) :
  environ !! "LLM_SANITIZE_STRICT"%string = None →
  sanitize_unicode environ (sanitize_unicode environ (PyStr t) false) true
  = sanitize_unicode environ (PyStr t) true
  ∧ ∃ t0, sanitize_unicode environ (PyStr t) false = PyStr t0
          ∧ sanitize_unicode environ (PyStr t) true
            = PyStr (filter (λ c, Spec.ConditionallyRemove c = false) t0).
Proof.
  intros Hunset.
  assert (STRICT_ENV = false) as Henv.
  { unfold _STRICT_MODE_ENV. by rewrite Hunset. }
  rewrite !sanitize_str, !removed_env_unset by done. split.
  - f_equal. apply list_filter_filter_l.
    intros c Hc. rewrite elem_of_STRICT_split in Hc. tauto.
  - eexists. split; [done|]. f_equal.
    rewrite list_filter_filter. apply list_filter_iff. intros c.
    rewrite elem_of_STRICT_split.
    destruct (Spec.ConditionallyRemove c); intuition congruence.
Qed.

(** C5: filtering a string twice in the same mode is filtering it once. *)
Theorem sanitize_unicode_idempotent (t : pystr) (m : bool) :
  sanitize_unicode environ (sanitize_unicode environ (PyStr t) m) m
  = sanitize_unicode environ (PyStr t) m.
Proof.
  rewrite !sanitize_str. f_equal. by apply list_filter_filter_l.
Qed.

(** C9: the filter distributes over concatenation: the result on
    [s + t] is the result on [s] followed by the result on [t]. *)
Theorem sanitize_unicode_concat (s t : pystr) (m : bool) :
  ∃ s' t', sanitize_unicode environ (PyStr s) m = PyStr s'
           ∧ sanitize_unicode environ (PyStr t) m = PyStr t'
           ∧ sanitize_unicode environ (PyStr (s ++ t)) m = PyStr (s' ++ t').
Proof.
  do 2 eexists. rewrite !sanitize_str, filter_app. done.
Qed.

(** C2: when the override is set to ["1"], ["true"] or ["yes"] in any
    case, a call with [strict=False] returns what the call with
    [strict=True] returns; for any other value, and when the variable is
    unset, the argument [strict] alone selects the removal set. *)
Theorem env_override_precedence :
  (Spec.truthy (environ !! "LLM_SANITIZE_STRICT"%string) →
   ∀ t : pystr,
     sanitize_unicode environ (PyStr t) false
     = sanitize_unicode environ (PyStr t) true)
  ∧ (¬ Spec.truthy (environ !! "LLM_SANITIZE_STRICT"%string) →
     ∀ (t : pystr) (strict : bool),
       sanitize_unicode environ (PyStr t) strict
       = PyStr (filter (λ c, Spec.active_removal strict c = false) t)).
Proof.
  rewrite <- STRICT_MODE_ENV_truthy. split.
  - intros Henv t. by rewrite !sanitize_str, !removed_env_set.
  - intros Henv%not_true_is_false t strict.
    rewrite sanitize_str. f_equal. apply list_filter_iff. intros c.
    rewrite removed_spec. by rewrite Henv.
Qed.

(** X1: two calls in a row amount to one call whose [strict] is the
    disjunction of the two arguments, whatever the environment. *)
Theorem sanitize_unicode_compose (t : pystr) (a b : bool) :
  sanitize_unicode environ (sanitize_unicode environ (PyStr t) a) b
  = sanitize_unicode environ (PyStr t) (a || b).
Proof.
  rewrite !sanitize_str. f_equal. rewrite list_filter_filter.
  apply list_filter_iff. intros c. unfold chars_to_remove.
  destruct STRICT_ENV, a, b; simpl; try tauto;
    rewrite elem_of_STRICT_split; tauto.
Qed.

(** X2: in every environment the strict result is a subsequence of the
    non-strict result, which is a subsequence of the input. *)
Theorem strict_within_default (t : pystr) :
  ∃ td ts,
    sanitize_unicode environ (PyStr t) false = PyStr td
    ∧ sanitize_unicode environ (PyStr t) true = PyStr ts
    ∧ ts `sublist_of` td ∧ td `sublist_of` t.
Proof.
  exists (filter (λ c, c ∉ removed false) t),
         (filter (λ c, c ∉ removed true)
            (filter (λ c, c ∉ removed false) t)).
  rewrite !sanitize_str. repeat split; try apply sublist_filter.
  f_equal. symmetry. apply list_filter_filter_l.
  intros c Hc Hin. apply Hc. unfold chars_to_remove in *.
  destruct STRICT_ENV; simpl in *; [done|]. apply elem_of_STRICT_split. auto.
Qed.

(** X3: no code point of the Tag block is left in any result, and no
    code point of the strict set is left in the result of a strict call. *)
Theorem result_has_none_removed (t : pystr) (strict : bool) :
  ∃ t' ts,
    sanitize_unicode environ (PyStr t) strict = PyStr t'
    ∧ sanitize_unicode environ (PyStr t) true = PyStr ts
    ∧ Forall (λ c, Spec.AlwaysRemove c = false) t'
    ∧ Forall (λ c, Spec.StrictRemoveSet c = false) ts.
Proof.
  do 2 eexists. rewrite !sanitize_str. repeat split.
  - apply Forall_forall. intros c [Hc _]%list_elem_of_filter.
    apply not_true_iff_false. rewrite AlwaysRemove_spec.
    intros Hin%elem_of_ALWAYS_REMOVE. by apply Hc, removed_tag_block.
  - apply Forall_forall. intros c [Hc _]%list_elem_of_filter.
    apply not_true_iff_false. rewrite StrictRemoveSet_spec.
    intros Hin. apply Hc. unfold chars_to_remove. by destruct STRICT_ENV.
Qed.

(** X4: a string comes back unchanged exactly when none of its code
    points is in the set the call removes. *)
Theorem unchanged_iff_nothing_to_remove (t : pystr) (strict : bool) :
  sanitize_unicode environ (PyStr t) strict = PyStr t
  ↔ Forall (λ c, c ∉ chars_to_remove environ strict) t.
Proof.
  rewrite sanitize_str, <- filter_self_iff. split; [by intros [= ?]|].
  by intros ->.
Qed.

(** X5: text whose code points all lie below U+200B, ASCII among it, is
    returned as it is in every mode and environment. *)
Theorem below_200B_unchanged (t : pystr) (strict : bool) :
  Forall (λ c, c < 0x200B) t →
  sanitize_unicode environ (PyStr t) strict = PyStr t.
Proof.
  intros Hlow. rewrite sanitize_str. f_equal. apply filter_self_iff.
  eapply Forall_impl; [exact Hlow|]. intros c Hc Hin. simpl in Hc.
  apply removed_within_strict, elem_of_STRICT_REMOVE in Hin. lia.
Qed.

(** X6: without the override, a non-strict call keeps every zero-width
    and bidirectional control character of the input, each in its place
    among the others. *)
Theorem default_keeps_conditional (t : pystr) :
  _STRICT_MODE_ENV environ = false →
  ∃ t', sanitize_unicode environ (PyStr t) false = PyStr t'
        ∧ filter (λ c, Spec.ConditionallyRemove c = true) t'
          = filter (λ c, Spec.ConditionallyRemove c = true) t.
Proof.
  intros Henv. eexists. rewrite sanitize_str. split; [done|].
  rewrite removed_env_unset by done. apply list_filter_filter_l.
  intros c Hc. rewrite elem_of_ALWAYS_REMOVE.
  unfold Spec.ConditionallyRemove in Hc. lia.
Qed.

(** X7: without the override, the strict and the non-strict call agree on
    a string exactly when it has no zero-width or bidirectional control
    character. *)
Theorem strict_differs_iff_conditional (t : pystr) :
  _STRICT_MODE_ENV environ = false →
  sanitize_unicode environ (PyStr t) true
  = sanitize_unicode environ (PyStr t) false
  ↔ Forall (λ c, Spec.ConditionallyRemove c = false) t.
Proof.
  intros Henv. rewrite !sanitize_str, !removed_env_unset by done.
  split.
  - intros [= Heq]. apply filter_agree_iff in Heq.
    eapply Forall_impl; [exact Heq|]. intros c Hc. simpl in Hc.
    rewrite elem_of_STRICT_split, elem_of_ALWAYS_REMOVE in Hc.
    destruct (Spec.ConditionallyRemove c) eqn:Hcond; [|done].
    unfold Spec.ConditionallyRemove in Hcond. exfalso.
    assert (¬ (0xE0000 ≤ c ≤ 0xE007F)) as Hout by lia. tauto.
  - intros Hclean. f_equal. apply filter_agree_iff.
    eapply Forall_impl; [exact Hclean|]. intros c Hc. simpl.
    rewrite elem_of_STRICT_split, Hc. intuition congruence.
Qed.

(** X8: the length of the input is the length of the result plus the
    number of code points of the input that are in the removed set. *)
Theorem removed_count (t : pystr) (strict : bool) :
  ∃ t', sanitize_unicode environ (PyStr t) strict = PyStr t'
        ∧ (length t
           = length t'
             + length
                 (filter (λ c, c ∈ chars_to_remove environ strict) t))%nat.
Proof.
  eexists. rewrite sanitize_str. split; [done|].
  rewrite <- (filter_length_split (λ c, c ∉ removed strict) t) at 1.
  f_equal. f_equal. apply list_filter_iff. intros c.
  destruct (decide (c ∈ removed strict)); tauto.
Qed.

End Filter.

(** ** The Structure Walker *)

Section Walker.

Import Dict.

Variable environ : gmap string pystr.

#[local] Abbreviation walk := (sanitize_dict environ).

Lemma walk_dict (items : entries) :
  walk (PyDict items) = PyDict <$> comprehend (dict_step environ) items [].
Proof. reflexivity. Qed.

Lemma walk_str (s : pystr) :
  walk (PyStr s)
  = Ok (PyStr (filter (λ c, c ∉ chars_to_remove environ false) s)).
Proof. simpl. f_equal. apply sanitize_str. Qed.

(** The dict comprehension sanitizes every key and value, hashes every new
    key, and writes the pairs in order. *)
Lemma dict_comprehension (items acc out : entries) :
  comprehend (dict_step environ) items acc = Ok out
  ↔ ∃ items',
      Forall2 (λ kv kv', walk kv.1 = Ok kv'.1 ∧ walk kv.2 = Ok kv'.2)
        items items'
      ∧ Forall (λ kv', py_hashable kv'.1 = true) items'
      ∧ out = update acc items'.
Proof.
  revert acc. induction items as [|[k v] items IH]; intros acc; simpl.
  - split.
    + intros [= <-]. exists []. by repeat constructor.
    + by intros (items' & ->%Forall2_nil_inv_l & _ & ->).
  - rewrite bind_Ok. split.
    + intros (acc' & Hstep & Hrest).
      apply bind_Ok in Hstep as (k' & Hk & Hstep).
      apply bind_Ok in Hstep as (v' & Hv & Hset).
      unfold setitem in Hset.
      destruct (py_hashable k') eqn:Hhash; [|done].
      injection Hset as <-.
      apply IH in Hrest as (items' & Hitems & Hkeys & ->).
      exists ((k', v') :: items'). by repeat constructor.
    + intros (items' & Hitems & Hkeys & ->).
      apply Forall2_cons_inv_l in Hitems
        as ([k' v'] & rest & [Hk Hv] & Hrest & ->).
      apply Forall_cons in Hkeys as [Hhash Hkeys]. simpl in *.
      exists (store acc k' v'). split.
      * rewrite Hk, Hv. simpl. unfold setitem. by rewrite Hhash.
      * apply IH. by exists rest.
Qed.

Lemma walk_hashable (k k' : pyval) :
  walk k = Ok k' → py_hashable k = true → py_hashable k' = true.
Proof.
  revert k'. induction k as [| | | |items _|items _|items IH|] using pyval_ind;
    intros k'; try (by intros [= <-]); try done.
  - rewrite walk_str. by intros [= <-].
  - simpl. intros (items' & Hitems%collect_Ok & ->)%fmap_Ok. simpl.
    induction Hitems as [|x y xs ys Hx _ IHxs]; simpl; [done|].
    apply Forall_cons in IH as [IHx IHrest].
    rewrite !andb_true_iff. intros [? ?]. eauto.
Qed.

Lemma walk_total (v : pyval) : well_formed v = true → ∃ y, walk v = Ok y.
Proof.
  induction v as [| | | |items IH|items IH|items IH|] using pyval_ind;
    try (by eexists).
  - intros Hwf. simpl in Hwf.
    enough (∃ items',
      Forall2 (λ kv kv', walk kv.1 = Ok kv'.1 ∧ walk kv.2 = Ok kv'.2)
        items items'
      ∧ Forall (λ kv', py_hashable kv'.1 = true) items')
      as (items' & Hitems & Hkeys).
    { exists (PyDict (update [] items')). rewrite walk_dict.
      apply fmap_Ok. eexists. split; [|done].
      apply dict_comprehension. by exists items'. }
    induction IH as [|[k v] items [IHk IHv] _ IHitems]; simpl in *.
    { exists []. by repeat constructor. }
    rewrite !andb_true_iff in Hwf. destruct Hwf as [[[Hhash Hk] Hv] Hrest].
    destruct (IHk Hk) as [k' Hk'], (IHv Hv) as [v' Hv'].
    destruct (IHitems Hrest) as (items' & Hitems & Hkeys).
    exists ((k', v') :: items'). split; constructor; simpl; eauto.
    by apply (walk_hashable k).
  - intros Hwf. simpl in Hwf.
    destruct (collect_total walk items) as [items' Hitems'].
    { apply forallb_Forall in Hwf.
      rewrite Forall_forall in IH, Hwf.
      apply Forall_forall. intros x Hx. auto. }
    exists (PyList items'). simpl. by rewrite Hitems'.
  - intros Hwf. simpl in Hwf.
    destruct (collect_total walk items) as [items' Hitems'].
    { apply forallb_Forall in Hwf.
      rewrite Forall_forall in IH, Hwf.
      apply Forall_forall. intros x Hx. auto. }
    exists (PyTuple items'). simpl. by rewrite Hitems'.
Qed.

(** A dict whose entries are already sanitized, with hashable and
    distinct keys, is rebuilt entry by entry as it is. *)
Lemma dict_comprehension_fixed (acc rest : entries) :
  distinct_keys (acc ++ rest) →
  Forall (λ kv, (walk kv.1 = Ok kv.1 ∧ py_hashable kv.1 = true)
                ∧ walk kv.2 = Ok kv.2) rest →
  comprehend (dict_step environ) rest acc = Ok (acc ++ rest).
Proof.
  intros Hdist Hrest. revert acc Hdist.
  induction Hrest as [|[k v] rest [[Hk Hhash] Hv] _ IH]; intros acc Hdist.
  - simpl. by rewrite app_nil_r.
  - simpl in *. rewrite Hk, Hv. simpl. unfold setitem. rewrite Hhash. simpl.
    rewrite store_fresh by (by eapply distinct_keys_before).
    assert (acc ++ (k, v) :: rest = (acc ++ [(k, v)]) ++ rest) as Hmid
      by (by rewrite <- app_assoc).
    rewrite Hmid in Hdist |- *. by apply IH.
Qed.

(** On a value Python can build, the walker returns the sanitization the
    specification describes. *)
Lemma walk_sanitized (x : pyval) :
  well_formed x = true →
  walk x = Ok (Spec.sanitized (_STRICT_MODE_ENV environ) x).
Proof.
  induction x as [| | | |items IH|items IH|items IH|] using pyval_ind;
    try done.
  - intros _. rewrite walk_str. simpl. do 2 f_equal.
    apply list_filter_iff. intros c.
    rewrite removed_spec. by rewrite orb_false_r.
  - intros Hwf. simpl in Hwf. apply forallb_Forall in Hwf.
    rewrite walk_dict. simpl. apply fmap_Ok. eexists. split; [|done].
    apply dict_comprehension. eexists. split; [|split; [|done]].
    + apply Forall2_fmap_r, Forall_Forall2_diag, Forall_forall.
      intros kv Hkv. rewrite Forall_forall in IH, Hwf.
      destruct (IH kv Hkv) as [IHk IHv]. specialize (Hwf kv Hkv).
      simpl in Hwf.
      apply andb_true_iff in Hwf as [[? ?]%andb_true_iff ?].
      simpl. auto.
    + apply Forall_fmap, Forall_forall. intros kv Hkv.
      rewrite Forall_forall in IH, Hwf.
      destruct (IH kv Hkv) as [IHk _]. specialize (Hwf kv Hkv).
      simpl in Hwf.
      apply andb_true_iff in Hwf as [[? ?]%andb_true_iff ?].
      simpl. apply (walk_hashable kv.1); auto.
  - intros Hwf. simpl in Hwf. apply forallb_Forall in Hwf.
    simpl. apply fmap_Ok. eexists. split; [|done].
    apply collect_Ok, Forall2_fmap_r, Forall_Forall2_diag, Forall_forall.
    intros x Hx. rewrite Forall_forall in IH, Hwf. auto.
  - intros Hwf. simpl in Hwf. apply forallb_Forall in Hwf.
    simpl. apply fmap_Ok. eexists. split; [|done].
    apply collect_Ok, Forall2_fmap_r, Forall_Forall2_diag, Forall_forall.
    intros x Hx. rewrite Forall_forall in IH, Hwf. auto.
Qed.

Lemma walk_fixed (x y : pyval) : walk x = Ok y → walk y = Ok y.
Proof.
  revert y.
  induction x as [| | | |items IH|items IH|items IH|] using pyval_ind;
    intros y; try (by intros [= <-]).
  - rewrite walk_str. intros [= <-]. rewrite walk_str. do 2 f_equal.
    by apply list_filter_filter_l.
  - rewrite walk_dict.
    intros (out & Hout & ->)%fmap_Ok.
    apply dict_comprehension in Hout as (items' & Hitems & Hkeys & ->).
    rewrite walk_dict. apply fmap_Ok. eexists. split; [|done].
    apply (dict_comprehension_fixed []); simpl.
    + apply update_distinct. constructor.
    + apply (update_Forall
               (λ k, walk k = Ok k ∧ py_hashable k = true)
               (λ v, walk v = Ok v)); [constructor|].
      clear -IH Hitems Hkeys.
      induction Hitems as [|[k v] [k' v'] items items' [Hk Hv] _ IHitems];
        [constructor|].
      apply Forall_cons in IH as [[IHk IHv] IH].
      apply Forall_cons in Hkeys as [Hhash Hkeys]. simpl in *.
      constructor; simpl; auto.
  - simpl. intros (items' & Hitems%collect_Ok & ->)%fmap_Ok. simpl.
    apply fmap_Ok. exists items'. split; [|done]. apply collect_Ok.
    clear -IH Hitems.
    induction Hitems as [|x x' items items' Hx _ IHitems]; [constructor|].
    apply Forall_cons in IH as [IHx IH]. constructor; auto.
  - simpl. intros (items' & Hitems%collect_Ok & ->)%fmap_Ok. simpl.
    apply fmap_Ok. exists items'. split; [|done]. apply collect_Ok.
    clear -IH Hitems.
    induction Hitems as [|x x' items items' Hx _ IHitems]; [constructor|].
    apply Forall_cons in IH as [IHx IH]. constructor; auto.
Qed.

(** C6: the filter returns [None] for [None] and any other non-string
    value as it is, in every mode; the walker returns a value that is
    neither a string nor a dict, a list or a tuple as it is; and on every
    value Python can build the walker returns a result, it raises
    nothing.  (The filter is a total function: it has no exceptional
    result at all.) *)
Theorem filter_and_walker_never_fail :
  (∀ strict, sanitize_unicode environ PyNone strict = PyNone)
  ∧ (∀ v strict,
       (∀ s, v ≠ PyStr s) → sanitize_unicode environ v strict = v)
  ∧ (∀ v, other_type v → sanitize_dict environ v = Ok v)
  ∧ (∀ v, well_formed v = true → ∃ y, sanitize_dict environ v = Ok y).
Proof.
  repeat split.
  - by intros [] strict Hv; try done; destruct (Hv s).
  - by intros [].
  - apply walk_total.
Qed.


(** C8: the walker turns a list into a list, and a tuple into a tuple, of
    the same length, whose element at each index is the recursive
    sanitization of the input element at that index, as the specification
    describes it: a string element is the string without the code points
    of the active removal set, an element that is neither a string nor a
    container is the element itself, and a container element is
    sanitized inside in the same way. *)
Theorem list_and_tuple_elementwise (items : list pyval) :
  well_formed (PyList items) = true →
  let m := _STRICT_MODE_ENV environ in
  ∃ items',
    sanitize_dict environ (PyList items) = Ok (PyList items')
    ∧ sanitize_dict environ (PyTuple items) = Ok (PyTuple items')
    ∧ length items' = length items
    ∧ (∀ i x, items !! i = Some x →
              ∃ x', items' !! i = Some x'
                    ∧ sanitize_dict environ x = Ok x'
                    ∧ x' = Spec.sanitized m x)
    ∧ (∀ i s, items !! i = Some (PyStr s) →
              items' !! i
              = Some (PyStr
                        (filter (λ c, Spec.active_removal m c = false) s)))
    ∧ (∀ i x, items !! i = Some x → other_type x →
              items' !! i = Some x).
Proof.
  intros Hwf m. exists (Spec.sanitized m <$> items).
  pose proof (walk_sanitized (PyList items) Hwf) as Hlist.
  pose proof (walk_sanitized (PyTuple items) Hwf) as Htuple.
  simpl in Hwf. apply forallb_Forall in Hwf.
  repeat split.
  - exact Hlist.
  - exact Htuple.
  - apply length_fmap.
  - intros i x Hx. exists (Spec.sanitized m x).
    rewrite list_lookup_fmap, Hx. repeat split.
    apply walk_sanitized.
    by apply (proj1 (Forall_lookup _ _) Hwf i x).
  - intros i s Hs. by rewrite list_lookup_fmap, Hs.
  - intros i x Hx Hother. rewrite list_lookup_fmap, Hx. simpl.
    by destruct x.
Qed.

(** C10: walking the result of the walker again changes nothing, also
    when that result is the exception; on every value Python can build
    there is a result; and a string given to the walker is filtered in the
    default mode. *)
Theorem sanitize_dict_idempotent :
  (∀ x,
     sanitize_dict environ x ≫= sanitize_dict environ
     = sanitize_dict environ x)
  ∧ (∀ x, well_formed x = true →
          ∃ y, sanitize_dict environ x = Ok y
               ∧ sanitize_dict environ y = Ok y)
  ∧ (∀ s, sanitize_dict environ (PyStr s)
          = Ok (sanitize_unicode environ (PyStr s) false)).
Proof.
  repeat split.
  - intros x. destruct (walk x) as [y|e] eqn:Hx; simpl; [|done].
    by apply (walk_fixed x).
  - intros x Hwf. destruct (walk_total _ Hwf) as [y Hy].
    exists y. split; [done|]. by apply (walk_fixed x).
Qed.

(** *** What every result of the walker satisfies *)

Lemma walk_hashable_inv (k k' : pyval) :
  walk k = Ok k' → py_hashable k' = true → py_hashable k = true.
Proof.
  revert k'.
  induction k as [| | | |items _|items _|items IH|] using pyval_ind;
    intros k'; try (by intros [= <-]); try done.
  - intros Hk. rewrite walk_dict in Hk.
    by apply fmap_Ok in Hk as (out & _ & ->).
  - simpl. by intros (items' & _ & ->)%fmap_Ok.
  - simpl. intros (items' & Hitems%collect_Ok & ->)%fmap_Ok. simpl.
    induction Hitems as [|x y xs ys Hx _ IHxs]; simpl; [done|].
    apply Forall_cons in IH as [IHx IHrest].
    rewrite !andb_true_iff. intros [? ?]. eauto.
Qed.

Lemma walked_entries (Q : pyval → Prop) (items items' : entries) :
  Forall2 (λ kv kv', walk kv.1 = Ok kv'.1 ∧ walk kv.2 = Ok kv'.2)
    items items' →
  Forall (λ kv, (∀ y, walk kv.1 = Ok y → Q y)
                ∧ (∀ y, walk kv.2 = Ok y → Q y)) items →
  Forall (λ kv', Q kv'.1 ∧ Q kv'.2) items'.
Proof.
  intros Hitems HQ. eapply Forall2_Forall_r; [exact Hitems|].
  eapply Forall_impl; [exact HQ|]. intros kv [Hk Hv] kv' [? ?]. auto.
Qed.

Lemma walk_well_formed (x y : pyval) :
  walk x = Ok y → well_formed x = true.
Proof.
  revert y.
  induction x as [| | | |items IH|items IH|items IH|] using pyval_ind;
    intros y; try done.
  - rewrite walk_dict. intros (out & Hout & ->)%fmap_Ok.
    apply dict_comprehension in Hout as (items' & Hitems & Hkeys & _).
    simpl. apply forallb_Forall. clear -IH Hitems Hkeys.
    induction Hitems as [|[k v] [k' v'] items items' [Hk Hv] _ IHitems];
      [constructor|].
    apply Forall_cons in IH as [[IHk IHv] IH].
    apply Forall_cons in Hkeys as [Hhash Hkeys]. simpl in *.
    constructor; [|auto]. simpl.
    rewrite (walk_hashable_inv k k'), (IHk k'), (IHv v'); done.
  - simpl. intros (items' & Hitems%collect_Ok & _)%fmap_Ok.
    apply forallb_Forall. clear -IH Hitems.
    induction Hitems as [|x x' items items' Hx _ IHitems]; [constructor|].
    apply Forall_cons in IH as [IHx IH]. constructor; eauto.
  - simpl. intros (items' & Hitems%collect_Ok & _)%fmap_Ok.
    apply forallb_Forall. clear -IH Hitems.
    induction Hitems as [|x x' items items' Hx _ IHitems]; [constructor|].
    apply Forall_cons in IH as [IHx IH]. constructor; eauto.
Qed.

Lemma walk_all_strings (ok : pystr → bool) (x y : pyval) :
  (∀ s, ok (filter (λ c, c ∉ chars_to_remove environ false) s) = true) →
  walk x = Ok y → all_strings ok y = true.
Proof.
  intros Hok. revert y.
  induction x as [| | | |items IH|items IH|items IH|] using pyval_ind;
    intros y; try (by intros [= <-]).
  - rewrite walk_str. intros [= <-]. apply Hok.
  - rewrite walk_dict. intros (out & Hout & ->)%fmap_Ok.
    apply dict_comprehension in Hout as (items' & Hitems & _ & ->).
    simpl. apply forallb_Forall.
    pose proof (walked_entries (λ v, all_strings ok v = true) _ _ Hitems IH)
      as Hclean.
    apply (update_Forall _ _ []) in Hclean; [|constructor].
    eapply Forall_impl; [exact Hclean|]. intros kv [Hk Hv]. simpl in *.
    by rewrite Hk, Hv.
  - simpl. intros (items' & Hitems%collect_Ok & ->)%fmap_Ok. simpl.
    apply forallb_Forall. by eapply Forall2_Forall_r.
  - simpl. intros (items' & Hitems%collect_Ok & ->)%fmap_Ok. simpl.
    apply forallb_Forall. by eapply Forall2_Forall_r.
Qed.

(** X9: in whatever the walker returns, no string at any depth, key or
    value or element, contains a code point of the Tag block. *)
Theorem walker_leaves_no_tag (x y : pyval) :
  sanitize_dict environ x = Ok y →
  all_strings (forallb (λ c, negb (Spec.AlwaysRemove c))) y = true.
Proof.
  apply walk_all_strings. intros s. apply forallb_Forall, Forall_forall.
  intros c [Hc _]%list_elem_of_filter. apply negb_true_iff.
  apply not_true_iff_false. rewrite AlwaysRemove_spec.
  intros Hin%elem_of_ALWAYS_REMOVE. by apply Hc, removed_tag_block.
Qed.

(** X10: the walker returns a result exactly on the values whose dict
    keys are all hashable; on the others it raises. *)
Theorem walker_returns_iff_well_formed (x : pyval) :
  (∃ y, sanitize_dict environ x = Ok y) ↔ well_formed x = true.
Proof.
  split; [|apply walk_total]. intros [y Hy]. by apply (walk_well_formed x y).
Qed.

(** X11: every dict in a result of the walker, at any depth, has
    hashable keys that are pairwise different. *)
Theorem walker_result_valid (x y : pyval) :
  sanitize_dict environ x = Ok y → valid_dicts y = true.
Proof.
  revert y.
  induction x as [| | | |items IH|items IH|items IH|] using pyval_ind;
    intros y; try (by intros [= <-]).
  - rewrite walk_str. by intros [= <-].
  - rewrite walk_dict. intros (out & Hout & ->)%fmap_Ok.
    apply dict_comprehension in Hout as (items' & Hitems & Hkeys & ->).
    simpl. apply andb_true_iff. split.
    + apply distinct_keysb_spec, update_distinct. constructor.
    + apply forallb_Forall.
      pose proof (walked_entries (λ v, valid_dicts v = true) _ _ Hitems IH)
        as Hvalid.
      assert (Forall (λ kv, (py_hashable kv.1 = true
                             ∧ valid_dicts kv.1 = true)
                            ∧ valid_dicts kv.2 = true) items') as Hall.
      { apply Forall_forall. intros kv Hkv.
        rewrite Forall_forall in Hkeys, Hvalid.
        destruct (Hvalid kv Hkv). auto. }
      apply (update_Forall
               (λ k, py_hashable k = true ∧ valid_dicts k = true)
               (λ v, valid_dicts v = true) []) in Hall; [|constructor].
      eapply Forall_impl; [exact Hall|]. intros kv [[Hh Hk] Hv]. simpl in *.
      by rewrite Hh, Hk, Hv.
  - simpl. intros (items' & Hitems%collect_Ok & ->)%fmap_Ok. simpl.
    apply forallb_Forall. by eapply Forall2_Forall_r.
  - simpl. intros (items' & Hitems%collect_Ok & ->)%fmap_Ok. simpl.
    apply forallb_Forall. by eapply Forall2_Forall_r.
Qed.

(** X12: the dict the walker returns never has more entries than the
    dict it was given. *)
Theorem dict_entries_never_grow (items : entries) (y : pyval) :
  sanitize_dict environ (PyDict items) = Ok y →
  ∃ out, y = PyDict out ∧ (length out ≤ length items)%nat.
Proof.
  rewrite walk_dict. intros (out & Hout & ->)%fmap_Ok.
  apply dict_comprehension in Hout as (items' & Hitems & _ & ->).
  eexists. split; [done|].
  pose proof (length_update [] items') as Hlen.
  apply Forall2_length in Hitems. simpl in Hlen. lia.
Qed.

(** X13: when the sanitized keys are hashable and pairwise different, the
    walker returns the sanitized pairs one for one, in the order of the
    input. *)
Theorem dict_without_collisions (items items' : entries) :
  Forall2
    (λ kv kv', sanitize_dict environ kv.1 = Ok kv'.1
               ∧ sanitize_dict environ kv.2 = Ok kv'.2)
    items items' →
  Forall (λ kv', py_hashable kv'.1 = true) items' →
  distinct_keys items' →
  sanitize_dict environ (PyDict items) = Ok (PyDict items').
Proof.
  intros Hitems Hkeys Hdist. rewrite walk_dict. apply fmap_Ok.
  exists items'. split; [|done]. apply dict_comprehension.
  exists items'. repeat split; try done.
  symmetry. by apply (update_fresh []).
Qed.

(** X14: the walker filters a string in the mode the environment gives:
    strictly when the override is on, and not strictly otherwise. *)
Theorem walker_mode_from_environment (s : pystr) :
  sanitize_dict environ (PyStr s)
  = Ok (sanitize_unicode environ (PyStr s) (_STRICT_MODE_ENV environ)).
Proof.
  rewrite walk_str, sanitize_str. do 2 f_equal.
  unfold chars_to_remove. by destruct (_STRICT_MODE_ENV environ).
Qed.

(** X15: the walker on the concatenation of two lists, or of two tuples,
    returns the concatenation of its results on the two. *)
Theorem walker_concat (a b a' b' : list pyval) :
  sanitize_dict environ (PyList a) = Ok (PyList a') →
  sanitize_dict environ (PyList b) = Ok (PyList b') →
  sanitize_dict environ (PyList (a ++ b)) = Ok (PyList (a' ++ b'))
  ∧ sanitize_dict environ (PyTuple (a ++ b)) = Ok (PyTuple (a' ++ b')).
Proof.
  simpl. intros (xs & Ha%collect_Ok & [= <-])%fmap_Ok.
  intros (ys & Hb%collect_Ok & [= <-])%fmap_Ok.
  assert (collect walk (a ++ b) = Ok (a' ++ b')) as ->; [|done].
  apply collect_Ok. by apply Forall2_app.
Qed.

(** X16: a value whose dicts have hashable, pairwise different keys and
    whose strings hold no code point of the removed set is returned by
    the walker as it is. *)
Theorem walker_unchanged_on_clean (x : pyval) :
  valid_dicts x = true →
  all_strings
    (forallb (λ c, bool_decide (c ∉ chars_to_remove environ false))) x
  = true →
  sanitize_dict environ x = Ok x.
Proof.
  induction x as [| | | |items IH|items IH|items IH|] using pyval_ind;
    try done.
  - intros _ Hclean. rewrite walk_str. do 2 f_equal.
    apply filter_self_iff. simpl in Hclean.
    apply forallb_Forall in Hclean.
    eapply Forall_impl; [exact Hclean|]. intros c. apply bool_decide_eq_true.
  - intros Hvalid Hclean. simpl in Hvalid, Hclean.
    apply andb_true_iff in Hvalid as [Hdist Hvalid].
    apply distinct_keysb_spec in Hdist.
    apply forallb_Forall in Hvalid, Hclean.
    rewrite walk_dict. apply fmap_Ok. exists items. split; [|done].
    apply (dict_comprehension_fixed []); [done|].
    apply Forall_forall. intros kv Hkv.
    rewrite Forall_forall in IH, Hvalid, Hclean.
    specialize (IH kv Hkv) as [IHk IHv].
    specialize (Hvalid kv Hkv). specialize (Hclean kv Hkv). simpl in *.
    apply andb_true_iff in Hvalid as [[? ?]%andb_true_iff ?].
    apply andb_true_iff in Hclean as [? ?]. auto.
  - simpl. rewrite !forallb_Forall. intros Hvalid Hclean.
    apply fmap_Ok. exists items. split; [|done].
    apply collect_Ok, Forall_Forall2_diag, Forall_forall. intros v Hv.
    rewrite Forall_forall in IH, Hvalid, Hclean. auto.
  - simpl. rewrite !forallb_Forall. intros Hvalid Hclean.
    apply fmap_Ok. exists items. split; [|done].
    apply collect_Ok, Forall_Forall2_diag, Forall_forall. intros v Hv.
    rewrite Forall_forall in IH, Hvalid, Hclean. auto.
Qed.

End Walker.

(** ** The theorems at concrete inputs *)

Example hello_world :
  sanitize_unicode ∅ (PyStr (lit "Hello" ++ [0xE0041] ++ lit "World")) false
  = PyStr (lit "HelloWorld").
Proof. vm_compute. reflexivity. Qed.

Example tag_block_edges :
  sanitize_unicode ∅ (PyStr [0xDFFFF; 0xE0000; 0xE007F; 0xE0080]) true
  = PyStr [0xDFFFF; 0xE0080].
Proof. vm_compute. reflexivity. Qed.

Example zero_width_joiner :
  sanitize_unicode ∅ (PyStr [0x1F468; 0x200D; 0x1F469]) false
  = PyStr [0x1F468; 0x200D; 0x1F469]
  ∧ sanitize_unicode ∅ (PyStr [0x1F468; 0x200D; 0x1F469]) true
    = PyStr [0x1F468; 0x1F469].
Proof. split; vm_compute; reflexivity. Qed.

Example override_in_upper_case :
  _STRICT_MODE_ENV {[ "LLM_SANITIZE_STRICT"%string := lit "TRUE" ]} = true
  ∧ _STRICT_MODE_ENV {[ "LLM_SANITIZE_STRICT"%string := lit "on" ]} = false
  ∧ _STRICT_MODE_ENV ∅ = false.
Proof. repeat split; vm_compute; reflexivity. Qed.

Example nested_dict :
  sanitize_dict ∅
    (PyDict [(PyStr (lit "key"),
              PyStr (lit "value" ++ [0xE0041] ++ lit "hidden"));
             (PyStr (lit "nested"),
              PyDict [(PyStr (lit "inner"),
                       PyStr (lit "text" ++ [0xE0042]))])])
  = Ok (PyDict [(PyStr (lit "key"), PyStr (lit "valuehidden"));
                (PyStr (lit "nested"),
                 PyDict [(PyStr (lit "inner"), PyStr (lit "text"))])]).
Proof. vm_compute. reflexivity. Qed.

Example colliding_keys :
  sanitize_dict ∅
    (PyDict [(PyStr (lit "a" ++ [0xE0041]), PyInt 1);
             (PyStr (lit "b"), PyInt 2);
             (PyStr (lit "a"), PyInt 3)])
  = Ok (PyDict [(PyStr (lit "a"), PyInt 3); (PyStr (lit "b"), PyInt 2)]).
Proof. vm_compute. reflexivity. Qed.

Example unhashable_key_raises :
  sanitize_dict ∅ (PyDict [(PyList [], PyNone)]) = Raise TypeError.
Proof. reflexivity. Qed.

Lemma strict_after_default_witness :
  let t := [0x41; 0x200B; 0xE0041; 0x42] in
  sanitize_unicode ∅ (sanitize_unicode ∅ (PyStr t) false) true
  = sanitize_unicode ∅ (PyStr t) true
  ∧ ∃ t0, sanitize_unicode ∅ (PyStr t) false = PyStr t0
          ∧ sanitize_unicode ∅ (PyStr t) true
            = PyStr (filter (λ c, Spec.ConditionallyRemove c = false) t0).
Proof.
  apply (strict_after_default ∅ [0x41; 0x200B; 0xE0041; 0x42]).
  reflexivity.
Defined.

Lemma env_override_precedence_witness :
  sanitize_unicode {[ "LLM_SANITIZE_STRICT"%string := lit "Yes" ]}
    (PyStr [0x41; 0x200B]) false
  = sanitize_unicode {[ "LLM_SANITIZE_STRICT"%string := lit "Yes" ]}
      (PyStr [0x41; 0x200B]) true
  ∧ sanitize_unicode ∅ (PyStr [0x41; 0x200B; 0xE0041]) false
    = PyStr (filter (λ c, Spec.active_removal false c = false)
               [0x41; 0x200B; 0xE0041]).
Proof.
  split.
  - apply (proj1 (env_override_precedence
                    {[ "LLM_SANITIZE_STRICT"%string := lit "Yes" ]})).
    exists (lit "Yes"). split; [reflexivity|].
    right; right. repeat constructor.
  - apply (proj2 (env_override_precedence ∅)).
    intros (v & Hv & _). vm_compute in Hv. discriminate Hv.
Defined.

Lemma filter_and_walker_never_fail_witness :
  sanitize_unicode ∅ (PyList [PyStr [0xE0041]]) true
  = PyList [PyStr [0xE0041]]
  ∧ sanitize_dict ∅ (PyObj false 7) = Ok (PyObj false 7)
  ∧ ∃ y, sanitize_dict ∅
           (PyDict [(PyTuple [PyStr [0xE0041]; PyInt 1],
                     PyList [PyNone; PyStr [0x200B]])]) = Ok y.
Proof.
  destruct (filter_and_walker_never_fail ∅) as (_ & Hpass & Hleaf & Htotal).
  split; [|split].
  - apply Hpass. intros s. discriminate.
  - apply Hleaf. exact I.
  - apply Htotal. reflexivity.
Defined.


Lemma list_and_tuple_elementwise_witness :
  let items :=
    [PyStr [0x61; 0xE0041; 0x200D]; PyInt 5;
     PyList [PyStr [0xE0042; 0x62]; PyNone]] in
  let items' :=
    [PyStr [0x61; 0x200D]; PyInt 5; PyList [PyStr [0x62]; PyNone]] in
  sanitize_dict ∅ (PyList items) = Ok (PyList items')
  ∧ sanitize_dict ∅ (PyTuple items) = Ok (PyTuple items').
Proof.
  intros items items'.
  destruct (list_and_tuple_elementwise ∅ items)
    as (out & Hlist & Htuple & Hlen & Helem & _); [reflexivity|].
  assert (out = items') as ->; [|by split].
  destruct (Helem 0%nat _ eq_refl) as (x0 & H0 & _ & ->).
  destruct (Helem 1%nat _ eq_refl) as (x1 & H1 & _ & ->).
  destruct (Helem 2%nat _ eq_refl) as (x2 & H2 & _ & ->).
  destruct out as [|y0 [|y1 [|y2 [|y3 out]]]]; try discriminate Hlen.
  injection H0 as ->. injection H1 as ->. injection H2 as ->.
  vm_compute. reflexivity.
Defined.

Lemma sanitize_dict_idempotent_witness :
  ∃ y, sanitize_dict ∅ (PyList [PyStr [0x61; 0xE0041]]) = Ok y
       ∧ sanitize_dict ∅ y = Ok y.
Proof.
  apply (proj1 (proj2 (sanitize_dict_idempotent ∅))). reflexivity.
Defined.

Lemma below_200B_unchanged_witness :
  sanitize_unicode ∅ (PyStr [0x48; 0x69; 0x21; 0x5E9]) true
  = PyStr [0x48; 0x69; 0x21; 0x5E9].
Proof.
  apply (below_200B_unchanged ∅ [0x48; 0x69; 0x21; 0x5E9] true).
  repeat (constructor; [reflexivity|]). constructor.
Defined.

Lemma default_keeps_conditional_witness :
  ∃ t', sanitize_unicode ∅ (PyStr [0x1F468; 0x200D; 0xE0041; 0x202B]) false
        = PyStr t'
        ∧ filter (λ c, Spec.ConditionallyRemove c = true) t'
          = filter (λ c, Spec.ConditionallyRemove c = true)
              [0x1F468; 0x200D; 0xE0041; 0x202B].
Proof.
  apply (default_keeps_conditional ∅ [0x1F468; 0x200D; 0xE0041; 0x202B]).
  vm_compute. reflexivity.
Defined.

Lemma strict_differs_iff_conditional_witness :
  sanitize_unicode ∅ (PyStr [0x41; 0xE0041]) true
  = sanitize_unicode ∅ (PyStr [0x41; 0xE0041]) false
  ↔ Forall (λ c, Spec.ConditionallyRemove c = false) [0x41; 0xE0041].
Proof.
  apply (strict_differs_iff_conditional ∅ [0x41; 0xE0041]).
  vm_compute. reflexivity.
Defined.

Lemma walker_leaves_no_tag_witness :
  all_strings (forallb (λ c, negb (Spec.AlwaysRemove c)))
    (PyDict [(PyStr [0x6B], PyList [PyStr [0x76]; PyInt 1])])
  = true.
Proof.
  apply (walker_leaves_no_tag ∅
           (PyDict [(PyStr [0x6B; 0xE0041],
                     PyList [PyStr [0xE0042; 0x76]; PyInt 1])])).
  vm_compute. reflexivity.
Defined.

Lemma walker_result_valid_witness :
  valid_dicts (PyDict [(PyStr [0x61], PyInt 2)]) = true.
Proof.
  apply (walker_result_valid ∅
           (PyDict [(PyStr [0x61; 0xE0041], PyInt 1);
                    (PyStr [0x61], PyInt 2)])).
  vm_compute. reflexivity.
Defined.

Lemma dict_entries_never_grow_witness :
  ∃ out, PyDict [(PyStr [0x61], PyInt 2)] = PyDict out
         ∧ (length out ≤ 2)%nat.
Proof.
  apply (dict_entries_never_grow ∅
           [(PyStr [0x61; 0xE0041], PyInt 1); (PyStr [0x61], PyInt 2)]).
  vm_compute. reflexivity.
Defined.

Lemma dict_without_collisions_witness :
  sanitize_dict ∅
    (PyDict [(PyStr [0x61; 0xE0041], PyInt 1); (PyStr [0x62], PyInt 2)])
  = Ok (PyDict [(PyStr [0x61], PyInt 1); (PyStr [0x62], PyInt 2)]).
Proof.
  apply (dict_without_collisions ∅).
  - repeat (constructor; [split; vm_compute; reflexivity|]). constructor.
  - repeat (constructor; [reflexivity|]). constructor.
  - repeat (constructor; [repeat (constructor; [reflexivity|]); constructor|]).
    constructor.
Defined.

Lemma walker_concat_witness :
  sanitize_dict ∅ (PyList ([PyStr [0x61; 0xE0041]] ++ [PyInt 1]))
  = Ok (PyList ([PyStr [0x61]] ++ [PyInt 1]))
  ∧ sanitize_dict ∅ (PyTuple ([PyStr [0x61; 0xE0041]] ++ [PyInt 1]))
    = Ok (PyTuple ([PyStr [0x61]] ++ [PyInt 1])).
Proof.
  apply (walker_concat ∅ [PyStr [0x61; 0xE0041]] [PyInt 1]).
  - vm_compute. reflexivity.
  - vm_compute. reflexivity.
Defined.

Lemma walker_unchanged_on_clean_witness :
  sanitize_dict ∅
    (PyDict [(PyStr [0x6B], PyTuple [PyStr [0x200D]; PyNone]);
             (PyInt 1, PyList [])])
  = Ok (PyDict [(PyStr [0x6B], PyTuple [PyStr [0x200D]; PyNone]);
                (PyInt 1, PyList [])]).
Proof.
  apply (walker_unchanged_on_clean ∅).
  - vm_compute. reflexivity.
  - vm_compute. reflexivity.
Defined.
